(** * check-plugin-versions: a shallow embedding of [src/scripts/check-plugin-versions.ts]

    The script parses its command line, asks [./scripts/changed-plugins.ts]
    for the plugins touched by a change set, pipes every plugin's diff into
    [./scripts/validate-plugin-version.ts], prints a report and exits with
    status 0 or 1.

    JavaScript strings are sequences of UTF-16 code units; they are modelled
    as [list N].  The two helper scripts are not part of the sources: the
    text they print (or the error they raise) is a parameter of the model,
    the record [Shell]. *)

From Stdlib Require Import String Ascii DecimalString.
From Stdlib Require Import List NArith Bool Arith Lia.
Import ListNotations.

(** ** JavaScript strings *)

Module JS.

Definition jsstring := list N.

(** An ASCII literal of the source, as code units. *)
Definition lit (s : string) : jsstring :=
  map N_of_ascii (list_ascii_of_string s).

Arguments lit s%_string.

(** [a === b] on strings. *)
Fixpoint eqb (a b : jsstring) : bool :=
  match a, b with
  | [], [] => true
  | x :: a', y :: b' => N.eqb x y && eqb a' b'
  | _, _ => false
  end.

(** The code units removed by [String.prototype.trim]: WhiteSpace and
    LineTerminator of ECMA-262. *)
Definition isWhiteSpace (c : N) : bool :=
  ((9 <=? c) && (c <=? 13) ||
   (c =? 32) || (c =? 160) || (c =? 5760) ||
   (8192 <=? c) && (c <=? 8202) ||
   (c =? 8232) || (c =? 8233) || (c =? 8239) || (c =? 8287) ||
   (c =? 12288) || (c =? 65279))%N.

Fixpoint trimStart (s : jsstring) : jsstring :=
  match s with
  | [] => []
  | c :: s' => if isWhiteSpace c then trimStart s' else s
  end.

Fixpoint trimEnd (s : jsstring) : jsstring :=
  match s with
  | [] => []
  | c :: s' =>
      match trimEnd s' with
      | [] => if isWhiteSpace c then [] else [c]
      | t => c :: t
      end
  end.

(** [s.trim()] *)
Definition trim (s : jsstring) : jsstring := trimEnd (trimStart s).

(** [s.split(sep)] for a separator of one code unit: never the empty array. *)
Fixpoint split (sep : N) (s : jsstring) : list jsstring :=
  match s with
  | [] => [[]]
  | c :: s' =>
      if N.eqb c sep then [] :: split sep s'
      else match split sep s' with
           | [] => [[c]]
           | piece :: pieces => (c :: piece) :: pieces
           end
  end.

(** [Boolean(s)] on a string: false exactly for the empty string. *)
Definition Boolean (s : jsstring) : bool :=
  match s with [] => false | _ :: _ => true end.

(** [xs.join(sep)] *)
Fixpoint join (sep : jsstring) (xs : list jsstring) : jsstring :=
  match xs with
  | [] => []
  | [x] => x
  | x :: rest => x ++ sep ++ join sep rest
  end.

(** [String(n)] for an array length. *)
Definition ofNat (n : nat) : jsstring :=
  lit (NilZero.string_of_uint (Nat.to_uint n)).

(** [s.startsWith(p)] *)
Fixpoint startsWith (p s : jsstring) : bool :=
  match p, s with
  | [], _ => true
  | x :: p', y :: s' => N.eqb x y && startsWith p' s'
  | _ :: _, [] => false
  end.

Definition LF : N := 10.

End JS.

Import JS.

(** ** Options and the command line *)

Record Options := mkOptions { staged : bool; branch : jsstring }.

(** What the loop of [parseArgs] reads from [args]: [const arg = args[i]]
    is [AsFlag i], [options.branch = args[i + 1]] is [AsValue (i + 1)]. *)
Inductive read := AsFlag (i : nat) | AsValue (i : nat).

Definition readIndex (r : read) : nat :=
  match r with AsFlag i => i | AsValue i => i end.

(** How a run of the loop ends.  An index outside the array (JavaScript
    answers [undefined]) and an exhausted iteration budget are outcomes of
    their own, so that their absence is a theorem and not a convention. *)
Inductive parsed :=
| Returned (options : Options) (reads : list read)
| PastEnd (i : nat)
| NoFuel.

Fixpoint parseArgs_loop (fuel : nat) (args : list jsstring) (i : nat)
    (options : Options) (reads : list read) : parsed :=
  if i <? length args then
    match fuel with
    | 0 => NoFuel
    | S fuel' =>
        match nth_error args i with
        | None => PastEnd i
        | Some arg =>
            let reads := reads ++ [AsFlag i] in
            if eqb arg (lit "--staged") then
              parseArgs_loop fuel' args (i + 1)
                (mkOptions true (branch options)) reads
            else if eqb arg (lit "--branch") && (i + 1 <? length args) then
              match nth_error args (i + 1) with
              | None => PastEnd (i + 1)
              | Some value =>
                  parseArgs_loop fuel' args (i + 1 + 1)
                    (mkOptions (staged options) value)
                    (reads ++ [AsValue (i + 1)])
              end
            else parseArgs_loop fuel' args (i + 1) options reads
        end
    end
  else Returned options reads.

Definition defaultOptions : Options := mkOptions false (lit "HEAD").

(** [process.argv.slice(2)] *)
Definition slice2 (argv : list jsstring) : list jsstring := skipn 2 argv.

(** The loop of [parseArgs] on [process.argv], with one iteration allowed
    per argument. *)
Definition parseArgs_run (argv : list jsstring) : parsed :=
  let args := slice2 argv in
  parseArgs_loop (length args) args 0 defaultOptions [].

Definition parseArgs (argv : list jsstring) : Options :=
  match parseArgs_run argv with
  | Returned options _ => options
  | _ => defaultOptions
  end.

(** ** Effects: the console, exceptions and [process.exit] *)

(** Bun's shell rejects [.text()] with a [ShellError] when the command exits
    with a non-zero status; calling what is not a function throws a
    [TypeError]. *)
Inductive exn := ShellError (exitCode : N) | TypeError.

Inductive promise (A : Type) :=
| Fulfilled (a : A)
| Rejected (e : exn).

Arguments Fulfilled {A} a.
Arguments Rejected {A} e.

(** What the two shell commands of the script answer.  [raw_text cmd] is
    [await $.raw(cmd).text()]; [echo_pipe_validate diff] is
    [await $`echo ${diff}`.pipe($`./scripts/validate-plugin-version.ts`).text()].
    Both expressions stand inside a [try]: whatever they throw, at the call
    or while the command runs, is the rejection.  A fulfilled answer needs a
    [$] that has a member [raw] and shell promises that have a method
    [pipe]; in Bun's documented API neither exists, both calls throw a
    [TypeError], and the shell is [bunShell] below. *)
Record Shell := mkShell {
  raw_text : jsstring -> promise jsstring;
  echo_pipe_validate : jsstring -> promise jsstring
}.

Inductive completion (A : Type) :=
| Normal (a : A)
| Throw (e : exn)
| Exit (code : N).

Arguments Normal {A} a.
Arguments Throw {A} e.
Arguments Exit {A} code.

(** A computation of the script: it runs on the lines printed so far and
    ends normally, by an exception or by [process.exit]. *)
Definition Proc (A : Type) : Type :=
  list jsstring -> completion A * list jsstring.

Definition ret {A} (a : A) : Proc A := fun out => (Normal a, out).

Definition bind {A B} (m : Proc A) (k : A -> Proc B) : Proc B :=
  fun out =>
    match m out with
    | (Normal a, out') => k a out'
    | (Throw e, out') => (Throw e, out')
    | (Exit code, out') => (Exit code, out')
    end.

Notation "x <- m ;; k" := (bind m (fun x => k))
  (at level 61, m at next level, right associativity).
Notation "m ;; k" := (bind m (fun _ => k))
  (at level 61, right associativity).

Definition console_log (line : jsstring) : Proc unit :=
  fun out => (Normal tt, out ++ [line]).

Definition process_exit {A} (code : N) : Proc A :=
  fun out => (Exit code, out).

Definition await {A} (p : promise A) : Proc A :=
  fun out =>
    match p with
    | Fulfilled a => (Normal a, out)
    | Rejected e => (Throw e, out)
    end.

(** [try { m } catch (error) { handler error }]: [process.exit] is not
    caught. *)
Definition try_catch {A} (m : Proc A) (handler : exn -> Proc A) : Proc A :=
  fun out =>
    match m out with
    | (Throw e, out') => handler e out'
    | r => r
    end.

(** [for (const x of xs) body], threading the variables the body assigns. *)
Fixpoint forOf {A S} (xs : list A) (body : A -> S -> Proc S) (s : S) : Proc S :=
  match xs with
  | [] => ret s
  | x :: rest => s' <- body x s ;; forOf rest body s'
  end.

(** ** The script *)

Module Msg.
Definition heading : jsstring := [55357; 56589]%N ++ lit " Checking plugin versions for changes".
Definition rule : jsstring := lit "========================================".
Definition noChanges : jsstring := [10024]%N ++ lit " No plugin changes detected".
Definition found (n : nat) (names : jsstring) : jsstring :=
  [55357; 56550]%N ++ lit " Found " ++ ofNat n ++ lit " changed plugin(s): " ++ names.
Definition checkingPrefix : jsstring := [55357; 56588]%N ++ lit " Checking plugin: ".
Definition checking (pluginName : jsstring) : jsstring := checkingPrefix ++ pluginName.
Definition required : jsstring := lit "   " ++ [9888; 65039]%N ++ lit "  Version update REQUIRED".
Definition notNeeded : jsstring := lit "   " ++ [9989]%N ++ lit " No version update needed".
Definition summary : jsstring := [55357; 56522]%N ++ lit " Summary:".
Definition total (n : nat) : jsstring := lit "   Total plugins changed: " ++ ofNat n.
Definition requiring (n : nat) : jsstring :=
  lit "   Plugins requiring version update: " ++ ofNat n.
Definition following : jsstring :=
  [9888; 65039]%N ++ lit "  The following plugins need version updates:".
Definition item (plugin : jsstring) : jsstring :=
  lit "   - " ++ plugin ++ lit " (plugins/" ++ plugin ++ lit "/.claude-plugin/plugin.json)".
Definition failed : jsstring :=
  [10060]%N ++ lit " Version check failed: Please update plugin versions".
Definition upToDate : jsstring := [10024]%N ++ lit " All plugin versions are up to date!".
End Msg.

Section Script.

Variable sh : Shell.

(** The arguments both queries append to the command line. *)
Definition modeArgs (args : list jsstring) (options : Options) : list jsstring :=
  let args := if staged options then args ++ [lit "--staged"] else args in
  if negb (eqb (branch options) (lit "HEAD"))
  then args ++ [lit "--branch"; branch options]
  else args.

Definition getChangedPlugins (options : Options) : Proc (list jsstring) :=
  try_catch
    (let args := modeArgs [lit "./scripts/changed-plugins.ts"] options in
     result <- await (raw_text sh (join (lit " ") args)) ;;
     ret (filter Boolean (split LF (trim result))))
    (fun error => ret []).

Definition validatePlugin (pluginName : jsstring) (options : Options) : Proc bool :=
  try_catch
    (let args := modeArgs [lit "./scripts/changed-plugins.ts"; pluginName] options in
     diff <- await (raw_text sh (join (lit " ") args)) ;;
     result <- await (echo_pipe_validate sh diff) ;;
     let response := trim result in
     ret (eqb response (lit "YES")))
    (fun error => ret false).

(** The body of the loop over [changedPlugins]; [needing] is
    [pluginsNeedingUpdate]. *)
Definition checkOne (options : Options) (pluginName : jsstring)
    (needing : list jsstring) : Proc (list jsstring) :=
  console_log (Msg.checking pluginName) ;;
  needsUpdate <- validatePlugin pluginName options ;;
  needing' <- (if needsUpdate
               then console_log Msg.required ;; ret (needing ++ [pluginName])
               else console_log Msg.notNeeded ;; ret needing) ;;
  console_log [] ;;
  ret needing'.

Definition main (argv : list jsstring) : Proc unit :=
  let options := parseArgs argv in
  console_log Msg.heading ;;
  console_log Msg.rule ;;
  console_log [] ;;
  changedPlugins <- getChangedPlugins options ;;
  (if length changedPlugins =? 0
   then console_log Msg.noChanges ;; process_exit 0
   else ret tt) ;;
  console_log (Msg.found (length changedPlugins) (join (lit ", ") changedPlugins)) ;;
  console_log [] ;;
  pluginsNeedingUpdate <- forOf changedPlugins (checkOne options) [] ;;
  console_log Msg.rule ;;
  console_log Msg.summary ;;
  console_log (Msg.total (length changedPlugins)) ;;
  console_log (Msg.requiring (length pluginsNeedingUpdate)) ;;
  console_log [] ;;
  if 0 <? length pluginsNeedingUpdate then
    console_log Msg.following ;;
    forOf pluginsNeedingUpdate
      (fun plugin (_ : unit) => console_log (Msg.item plugin)) tt ;;
    console_log [] ;;
    console_log Msg.failed ;;
    process_exit 1
  else
    console_log Msg.upToDate ;;
    process_exit 0.

End Script.

(** The exit status and the printed lines of a run that starts with an
    empty console. *)
Definition exitStatus (r : completion unit * list jsstring) : option N :=
  match fst r with Exit code => Some code | _ => None end.

Definition printed (r : completion unit * list jsstring) : list jsstring := snd r.

Definition run (sh : Shell) (argv : list jsstring) : completion unit * list jsstring :=
  main sh argv [].

(** The command lines of the two queries. *)
Definition resolverCommand (options : Options) : jsstring :=
  join (lit " ") (modeArgs [lit "./scripts/changed-plugins.ts"] options).

Definition diffCommand (pluginName : jsstring) (options : Options) : jsstring :=
  join (lit " ") (modeArgs [lit "./scripts/changed-plugins.ts"; pluginName] options).

(** What [getChangedPlugins] and [validatePlugin] hand to [main]. *)
Definition changedPluginsOf (sh : Shell) (options : Options) : list jsstring :=
  match fst (getChangedPlugins sh options []) with
  | Normal names => names
  | _ => []
  end.

Definition needsUpdateOf (sh : Shell) (options : Options) (pluginName : jsstring) : bool :=
  match fst (validatePlugin sh pluginName options []) with
  | Normal b => b
  | _ => false
  end.

(** ** The lines of a run, by part *)

(** What the loop body prints for one plugin. *)
Definition block (sh : Shell) (options : Options) (pluginName : jsstring) : list jsstring :=
  [Msg.checking pluginName;
   if needsUpdateOf sh options pluginName then Msg.required else Msg.notNeeded;
   []].

Definition preamble : list jsstring := [Msg.heading; Msg.rule; []].

Definition summaryLines (names needing : list jsstring) : list jsstring :=
  [Msg.rule; Msg.summary; Msg.total (length names);
   Msg.requiring (length needing); []].

Definition closing (needing : list jsstring) : list jsstring :=
  if 0 <? length needing
  then [Msg.following] ++ map Msg.item needing ++ [[]; Msg.failed]
  else [Msg.upToDate].

(** ** Reading the printed report

    A report entry is a line [Checking plugin: <name>] together with the
    verdict printed on the line after it: [Some true] for "Version update
    REQUIRED", [Some false] for "No version update needed", [None] when the
    next line is neither. *)

Definition verdictOfLine (line : jsstring) : option bool :=
  if eqb line Msg.required then Some true
  else if eqb line Msg.notNeeded then Some false
  else None.

Fixpoint reportEntries (lines : list jsstring) : list (jsstring * option bool) :=
  match lines with
  | [] => []
  | line :: rest =>
      if startsWith Msg.checkingPrefix line then
        (skipn (length Msg.checkingPrefix) line,
         match rest with
         | next :: _ => verdictOfLine next
         | [] => None
         end) :: reportEntries rest
      else reportEntries rest
  end.

(** ** Views of a run of [parseArgs] *)

Definition readsOf (argv : list jsstring) : list read :=
  match parseArgs_run argv with
  | Returned _ reads => reads
  | _ => []
  end.

(** The index of the last [options.branch = args[i + 1]] of a run. *)
Fixpoint lastValue (reads : list read) : option nat :=
  match reads with
  | [] => None
  | r :: rest =>
      match lastValue rest with
      | Some j => Some j
      | None => match r with AsValue j => Some j | AsFlag _ => None end
      end
  end.

(** The loop read as a machine that takes one argument at a time: after a
    [--branch] read as a flag the next argument, if there is one, is its
    value. *)
Inductive scanState :=
| Scanning (options : Options) (reads : list read)
| AfterBranch (options : Options) (reads : list read).

Definition scanArg (st : scanState) (arg : jsstring) : scanState :=
  match st with
  | Scanning options reads =>
      let reads' := reads ++ [AsFlag (length reads)] in
      if eqb arg (lit "--staged") then Scanning (mkOptions true (branch options)) reads'
      else if eqb arg (lit "--branch") then AfterBranch options reads'
      else Scanning options reads'
  | AfterBranch options reads =>
      Scanning (mkOptions (staged options) arg) (reads ++ [AsValue (length reads)])
  end.

Definition scanOptions (st : scanState) : Options :=
  match st with Scanning o _ => o | AfterBranch o _ => o end.

Definition scanReads (st : scanState) : list read :=
  match st with Scanning _ r => r | AfterBranch _ r => r end.

Definition scanArgs (args : list jsstring) : scanState :=
  fold_left scanArg args (Scanning defaultOptions []).

(** ** Sample command lines and shells *)

Definition argv0 : list jsstring :=
  [lit "bun"; lit "./scripts/check-plugin-versions.ts"].

Definition alpha : jsstring := lit "alpha".

(** [--branch --staged]: the second argument is the value of the first. *)
Definition argvBranchStaged : list jsstring :=
  argv0 ++ [lit "--branch"; lit "--staged"].

(** [--branch --branch v]: the second [--branch] is the value of the first. *)
Definition argvBranchBranch : list jsstring :=
  argv0 ++ [lit "--branch"; lit "--branch"; lit "v"].

(** [--branch --branch]: the last argument is a [--branch] with nothing
    after it. *)
Definition argvBranchTwice : list jsstring :=
  argv0 ++ [lit "--branch"; lit "--branch"].


(** Every command fails, as outside a repository. *)
Definition failingShell : Shell :=
  mkShell (fun _ => Rejected (ShellError 128)) (fun _ => Rejected (ShellError 128)).

(** Every command succeeds and prints nothing. *)
Definition silentShell : Shell :=
  mkShell (fun _ => Fulfilled []) (fun _ => Fulfilled []).

(** The resolver script prints the same plugin on two lines. *)
Definition duplicateShell : Shell :=
  mkShell (fun _ => Fulfilled (alpha ++ [LF] ++ alpha ++ [LF]))
          (fun _ => Fulfilled (lit "NO")).

(** One plugin changed; its diff is not a diff and the policy check exits
    with status 1. *)
Definition brokenCheckShell : Shell :=
  mkShell (fun cmd => if eqb cmd (resolverCommand defaultOptions)
                      then Fulfilled (alpha ++ [LF])
                      else Fulfilled (lit "garbage"))
          (fun _ => Rejected (ShellError 1)).

Definition jsstring_eq_dec : forall a b : jsstring, {a = b} + {a <> b} :=
  list_eq_dec N.eq_dec.

(** ** The version policy evaluator

    [./scripts/validate-plugin-version.ts] is not among the sources; the
    script above only sees its output through [echo_pipe_validate]. *)

Module Evaluator.

(** Modelled from the spec: the verdicts and the error of the missing
    evaluator, "VersionVerdict: one of BumpRequired, NoBumpRequired" and
    "MalformedDiffError". *)
Inductive VersionVerdict := BumpRequired | NoBumpRequired.

Inductive evalError := MalformedDiffError.

Inductive evaluated :=
| Verdict (v : VersionVerdict)
| Failed (e : evalError).

Inductive diffLine :=
| FileHeader
| HunkHeader
| ContextLine
| Added (content : jsstring)
| Removed (content : jsstring).

(** Modelled from the spec: the line syntax of a unified diff, which the
    missing evaluator parses ("file header + hunk headers + context/add/remove
    lines"; "lines prefixed with +/-, excluding file/hunk header lines").  A
    line is recognised by its prefix; a line with no known prefix makes the
    diff unparseable. *)
Definition classifyLine (line : jsstring) : option diffLine :=
  if startsWith (lit "+++") line || startsWith (lit "---") line
     || startsWith (lit "diff ") line || startsWith (lit "index ") line
  then Some FileHeader
  else if startsWith (lit "@@") line then Some HunkHeader
  else match line with
       | [] => Some ContextLine
       | c :: content =>
           if N.eqb c 43 then Some (Added content)
           else if N.eqb c 45 then Some (Removed content)
           else if N.eqb c 32 || N.eqb c 92 then Some ContextLine
           else None
       end.

(** Modelled from the spec: the missing parser "into added-line and
    removed-line sets"; [None] is the unparseable diff. *)
Fixpoint collect (lines : list jsstring) : option (list jsstring * list jsstring) :=
  match lines with
  | [] => Some ([], [])
  | line :: rest =>
      match classifyLine line, collect rest with
      | Some (Added c), Some (added, removed) => Some (c :: added, removed)
      | Some (Removed c), Some (added, removed) => Some (added, c :: removed)
      | Some _, Some sets => Some sets
      | _, _ => None
      end
  end.

(** Modelled from the spec: the missing parser applied to the lines of the
    diff text. *)
Definition parseDiff (diff : jsstring) : option (list jsstring * list jsstring) :=
  collect (split LF diff).

Definition quote : N := 34.

(** Modelled from the spec: the missing reader of the "<value>" of the
    version-field pattern, up to its closing quote. *)
Fixpoint untilQuote (s : jsstring) : option jsstring :=
  match s with
  | [] => None
  | c :: s' =>
      if N.eqb c quote then Some []
      else match untilQuote s' with
           | Some v => Some (c :: v)
           | None => None
           end
  end.

(** Modelled from the spec: the missing "version-field pattern"
    [<quote>version<quote>: <quote>value<quote>]; the result is the value. *)
Definition versionValue (content : jsstring) : option jsstring :=
  let key := quote :: lit "version" ++ [quote] in
  let t := trimStart content in
  if startsWith key t then
    match trimStart (skipn (length key) t) with
    | c :: afterColon =>
        if N.eqb c 58 then
          match trimStart afterColon with
          | q :: value => if N.eqb q quote then untilQuote value else None
          | [] => None
          end
        else None
    | [] => None
    end
  else None.

(** Modelled from the spec: the missing tests for "whitespace-only" and
    "comment-only" content. *)
Definition isBlank (content : jsstring) : bool := negb (Boolean (trim content)).

Definition isComment (content : jsstring) : bool :=
  let t := trimStart content in
  startsWith (lit "//") t || startsWith (lit "#") t.

(** Modelled from the spec: the missing test for "a non-version,
    non-whitespace, non-comment field". *)
Definition isField (content : jsstring) : bool :=
  negb (isBlank content) && negb (isComment content)
  && match versionValue content with Some _ => false | None => true end.

(** Modelled from the spec: the values of the version-field lines of a
    line set, for axis (a) of the missing evaluator. *)
Fixpoint versions (contents : list jsstring) : list jsstring :=
  match contents with
  | [] => []
  | c :: rest =>
      match versionValue c with
      | Some v => v :: versions rest
      | None => versions rest
      end
  end.

(** Modelled from the spec: axis (a) of the missing evaluator, "did any line
    matching the version-field pattern appear in both the added and removed
    sets with different values". *)
Definition axisA (added removed : list jsstring) : bool :=
  existsb (fun v1 => existsb (fun v2 => negb (eqb v1 v2)) (versions removed))
    (versions added).

(** Modelled from the spec: axis (b) of the missing evaluator, "did any
    non-version, non-whitespace, non-comment field change (added or removed
    lines outside the version field)". *)
Definition axisB (added removed : list jsstring) : bool :=
  existsb isField (added ++ removed).

(** Modelled from the spec: the missing [evaluate] of
    [validate-plugin-version.ts], "BumpRequired iff (b) is true and (a) is
    false"; "malformed diff input (unparseable) -> evaluator fails with
    MalformedDiffError". *)
Definition evaluate (diff : jsstring) : evaluated :=
  match parseDiff diff with
  | None => Failed MalformedDiffError
  | Some (added, removed) =>
      if axisB added removed && negb (axisA added removed)
      then Verdict BumpRequired
      else Verdict NoBumpRequired
  end.

(** The two axes, stated on the line sets. *)
Definition VersionChanged (added removed : list jsstring) : Prop :=
  exists c1 c2 v1 v2,
    In c1 added /\ In c2 removed /\
    versionValue c1 = Some v1 /\ versionValue c2 = Some v2 /\ v1 <> v2.

Definition FieldChanged (added removed : list jsstring) : Prop :=
  exists c, (In c added \/ In c removed) /\ isField c = true.

(** The manifest lines of scenarios A and B of the specification. *)
Definition q (s : string) : jsstring := quote :: lit s ++ [quote].
Arguments q s%_string.
Definition kv (k v : string) : jsstring := lit "  " ++ q k ++ lit ": " ++ q v ++ lit ",".
Arguments kv (k v)%_string.

Definition scenarioA : jsstring :=
  join [LF] [lit "--- a/plugin.json"; lit "+++ b/plugin.json"; lit "@@ -1,3 +1,4 @@"; lit " {";
             45%N :: kv "version" "1.0.0"; 43%N :: kv "version" "1.0.0";
             43%N :: kv "description" "new text"; lit " }"; []].
Definition scenarioB : jsstring :=
  join [LF] [lit "--- a/plugin.json"; lit "+++ b/plugin.json"; lit "@@ -1,3 +1,4 @@"; lit " {";
             45%N :: kv "version" "1.0.0"; 43%N :: kv "version" "1.0.1";
             43%N :: kv "description" "new text"; lit " }"; []].

End Evaluator.

(** ** Further readers of the output and of the resolver's text *)



(** The lines [   - <plugin> (plugins/<plugin>/.claude-plugin/plugin.json)]
    of the printed report. *)
Definition itemPrefix : jsstring := lit "   - ".

Definition itemLines (lines : list jsstring) : list jsstring :=
  filter (startsWith itemPrefix) lines.

(** The entries of the report whose verdict is "Version update REQUIRED". *)
Definition isRequired (entry : jsstring * option bool) : bool :=
  match snd entry with Some true => true | _ => false end.

(** The text of the mode flags on a command line. *)
Definition modeSuffix (options : Options) : jsstring :=
  (if staged options then lit " --staged" else [])
  ++ (if eqb (branch options) (lit "HEAD") then []
      else lit " --branch " ++ branch options).

(** ** The resolver script

    [./scripts/changed-plugins.ts] is not among the sources; the script above
    only sees its output through [raw_text]. *)

Module Resolver.

(** Modelled from the spec: the plugins root of the missing
    [./scripts/changed-plugins.ts] ("the top-level directory under the
    plugins root"); the script above prints manifests as
    [plugins/<plugin>/.claude-plugin/plugin.json]. *)
Definition pluginsRoot : jsstring := lit "plugins/".

(** Modelled from the spec: the missing reader of "the path segment
    immediately following the plugins-root prefix", up to the next slash. *)
Fixpoint segment (s : jsstring) : jsstring :=
  match s with
  | [] => []
  | c :: s' => if N.eqb c 47 then [] else c :: segment s'
  end.

(** Modelled from the spec: the missing PluginName of a ChangedPath,
    "undefined for paths outside the plugins root (discarded)". *)
Definition pluginNameOf (path : jsstring) : option jsstring :=
  if startsWith pluginsRoot path
  then Some (segment (skipn (length pluginsRoot) path))
  else None.

Fixpoint pluginNames (paths : list jsstring) : list jsstring :=
  match paths with
  | [] => []
  | path :: rest =>
      match pluginNameOf path with
      | Some name => name :: pluginNames rest
      | None => pluginNames rest
      end
  end.

(** Modelled from the spec: the missing [resolve] without a plugin filter,
    "the set of distinct plugin names whose directory subtree contains at
    least one changed path", on the changed paths the version-control query
    lists. *)
Definition resolve (paths : list jsstring) : list jsstring :=
  nodup jsstring_eq_dec (pluginNames paths).


End Resolver.


(** * Properties *)

(** ** Strings *)

Lemma eqb_eq (a b : jsstring) : eqb a b = true <-> a = b.
Proof.
  revert b; induction a as [|x a IH]; intros [|y b]; simpl; try (split; congruence).
  rewrite andb_true_iff, N.eqb_eq, IH. split.
  - intros [-> ->]; reflexivity.
  - intros H; injection H; auto.
Qed.

Lemma eqb_refl (a : jsstring) : eqb a a = true.
Proof. apply eqb_eq; reflexivity. Qed.

Lemma eqb_neq (a b : jsstring) : eqb a b = false <-> a <> b.
Proof.
  rewrite <- eqb_eq. destruct (eqb a b); split; congruence.
Qed.

(** ** The two queries never throw and print nothing *)

Section Queries.

Variable sh : Shell.

Lemma getChangedPlugins_run (options : Options) (out : list jsstring) :
  getChangedPlugins sh options out = (Normal (changedPluginsOf sh options), out).
Proof.
  unfold changedPluginsOf, getChangedPlugins, try_catch, bind, await, ret.
  destruct (raw_text sh _); reflexivity.
Qed.

Lemma validatePlugin_run (pluginName : jsstring) (options : Options) (out : list jsstring) :
  validatePlugin sh pluginName options out
  = (Normal (needsUpdateOf sh options pluginName), out).
Proof.
  unfold needsUpdateOf, validatePlugin, try_catch, bind, await, ret.
  destruct (raw_text sh _) as [diff|e]; simpl; [|reflexivity].
  destruct (echo_pipe_validate sh diff); reflexivity.
Qed.

Lemma changedPluginsOf_fulfilled (options : Options) (text : jsstring) :
  raw_text sh (resolverCommand options) = Fulfilled text ->
  changedPluginsOf sh options = filter Boolean (split LF (trim text)).
Proof.
  intros H. unfold changedPluginsOf, getChangedPlugins, try_catch, bind, await, ret.
  fold (resolverCommand options). rewrite H. reflexivity.
Qed.

Lemma changedPluginsOf_rejected (options : Options) (e : exn) :
  raw_text sh (resolverCommand options) = Rejected e ->
  changedPluginsOf sh options = [].
Proof.
  intros H. unfold changedPluginsOf, getChangedPlugins, try_catch, bind, await, ret.
  fold (resolverCommand options). rewrite H. reflexivity.
Qed.

Lemma checkOne_run (options : Options) (pluginName : jsstring)
    (needing out : list jsstring) :
  checkOne sh options pluginName needing out
  = (Normal (needing ++ filter (needsUpdateOf sh options) [pluginName]),
     out ++ block sh options pluginName).
Proof.
  unfold checkOne, bind at 1. unfold console_log at 1.
  unfold bind at 1. rewrite validatePlugin_run.
  unfold block. simpl filter.
  destruct (needsUpdateOf sh options pluginName);
    unfold bind, console_log, ret; simpl;
    rewrite <- ?app_assoc, ?app_nil_r; reflexivity.
Qed.

Lemma forOf_checkOne (options : Options) (names needing out : list jsstring) :
  forOf names (checkOne sh options) needing out
  = (Normal (needing ++ filter (needsUpdateOf sh options) names),
     out ++ flat_map (block sh options) names).
Proof.
  revert needing out; induction names as [|p names IH]; intros needing out.
  - simpl. unfold ret. rewrite !app_nil_r. reflexivity.
  - simpl forOf. unfold bind. rewrite checkOne_run. rewrite IH.
    simpl flat_map. rewrite <- !app_assoc.
    change (p :: names) with ([p] ++ names). rewrite filter_app. reflexivity.
Qed.

Lemma forOf_items (plugins out : list jsstring) :
  forOf plugins (fun plugin (_ : unit) => console_log (Msg.item plugin)) tt out
  = (Normal tt, out ++ map Msg.item plugins).
Proof.
  revert out; induction plugins as [|p plugins IH]; intros out; simpl.
  - unfold ret. rewrite app_nil_r. reflexivity.
  - unfold bind, console_log at 1. rewrite IH. rewrite <- app_assoc. reflexivity.
Qed.

(** One [console.log] of a sequence, run. *)
Ltac step_log := unfold bind at 1, console_log at 1.

(** The whole of a run, in closed form. *)
Lemma main_run (argv : list jsstring) :
  let options := parseArgs argv in
  let names := changedPluginsOf sh options in
  let needing := filter (needsUpdateOf sh options) names in
  run sh argv =
  match names with
  | [] => (Exit 0%N, preamble ++ [Msg.noChanges])
  | _ :: _ =>
      (Exit (if 0 <? length needing then 1%N else 0%N),
       preamble
       ++ [Msg.found (length names) (join (lit ", ") names); []]
       ++ flat_map (block sh options) names
       ++ summaryLines names needing
       ++ closing needing)
  end.
Proof.
  intros options names needing. unfold run, main. fold options.
  step_log. step_log.
  step_log. unfold bind at 1.
  rewrite getChangedPlugins_run. fold names. subst needing.
  destruct names as [|p names']; [reflexivity|].
  unfold bind at 1. change (length (p :: names') =? 0) with false.
  cbv iota. unfold ret at 1.
  remember (p :: names') as ns eqn:Ens.
  step_log. step_log.
  unfold bind at 1. rewrite forOf_checkOne. rewrite app_nil_l.
  remember (filter (needsUpdateOf sh options) ns) as needing eqn:Eneeding.
  step_log. step_log.
  step_log. step_log.
  step_log.
  unfold closing, summaryLines, preamble.
  destruct (0 <? length needing).
  - step_log. unfold bind at 1. rewrite forOf_items.
    unfold bind, console_log, process_exit. f_equal.
    rewrite <- !app_assoc. reflexivity.
  - unfold bind, console_log, process_exit. f_equal.
    rewrite <- !app_assoc. reflexivity.
Qed.

End Queries.

(** ** The policy check as [validatePlugin] sees it *)

Lemma validatePlugin_query_rejected
    (sh : Shell) (pluginName : jsstring) (options : Options) (e : exn)
    (out : list jsstring) :
  raw_text sh (diffCommand pluginName options) = Rejected e ->
  validatePlugin sh pluginName options out = (Normal false, out).
Proof.
  intros H. unfold validatePlugin, try_catch, bind, await, ret.
  fold (diffCommand pluginName options). rewrite H. reflexivity.
Qed.

Lemma validatePlugin_check_rejected
    (sh : Shell) (pluginName : jsstring) (options : Options)
    (diff : jsstring) (e : exn) (out : list jsstring) :
  raw_text sh (diffCommand pluginName options) = Fulfilled diff ->
  echo_pipe_validate sh diff = Rejected e ->
  validatePlugin sh pluginName options out = (Normal false, out).
Proof.
  intros H H'. unfold validatePlugin, try_catch, bind, await, ret.
  fold (diffCommand pluginName options). rewrite H, H'. reflexivity.
Qed.

(** C4. In the source, [validatePlugin] returns [false] ("no update needed")
    whenever the per-plugin diff query or the piped policy check raises an
    exception, whatever the exception is (any exit status). *)
Theorem validatePlugin_false_on_exception
    (sh : Shell) (pluginName : jsstring) (options : Options) (out : list jsstring) :
  (exists e, raw_text sh (diffCommand pluginName options) = Rejected e) \/
  (exists diff e, raw_text sh (diffCommand pluginName options) = Fulfilled diff /\
                  echo_pipe_validate sh diff = Rejected e) ->
  validatePlugin sh pluginName options out = (Normal false, out).
Proof.
  intros [[e H] | (diff & e & H & H')].
  - apply (validatePlugin_query_rejected sh pluginName options e out H).
  - apply (validatePlugin_check_rejected sh pluginName options diff e out H H').
Qed.

Lemma validatePlugin_false_on_exception_witness :
  validatePlugin brokenCheckShell alpha defaultOptions [] = (Normal false, []).
Proof.
  apply (validatePlugin_false_on_exception brokenCheckShell alpha defaultOptions []).
  right. exists (lit "garbage"), (ShellError 1). split; reflexivity.
Defined.



Example trim_yes_lowercase : eqb (trim (lit "yes")) (lit "YES") = false.
Proof. reflexivity. Qed.

Example trim_no : eqb (trim (lit "NO" ++ [LF])) (lit "YES") = false.
Proof. reflexivity. Qed.

Example trim_yes_trailing_text : eqb (trim (lit "YES please" ++ [LF])) (lit "YES") = false.
Proof. reflexivity. Qed.

Example trim_yes_padded : eqb (trim (lit "  YES " ++ [13; 10]%N)) (lit "YES") = true.
Proof. reflexivity. Qed.

(** ** The exit status *)

Lemma needing_nonempty (f : jsstring -> bool) (names : list jsstring) :
  (0 <? length (filter f names)) = existsb f names.
Proof.
  induction names as [|p names IH]; simpl; [reflexivity|].
  destruct (f p); simpl; [reflexivity | exact IH].
Qed.

Lemma exitStatus_run (sh : Shell) (argv : list jsstring) :
  exitStatus (run sh argv)
  = Some (if existsb (needsUpdateOf sh (parseArgs argv))
                     (changedPluginsOf sh (parseArgs argv))
          then 1%N else 0%N).
Proof.
  rewrite main_run. destruct (changedPluginsOf sh (parseArgs argv)) as [|p names].
  - reflexivity.
  - unfold exitStatus, fst. rewrite needing_nonempty. reflexivity.
Qed.

(** C5. A run passes (exit status 0) if and only if no resolved plugin got
    the verdict "version update required", and fails with exit status 1 if
    and only if some resolved plugin did; a run with no changed plugin
    passes. *)
Theorem exit_status_iff_no_bump_required (sh : Shell) (argv : list jsstring) :
  let options := parseArgs argv in
  let names := changedPluginsOf sh options in
  (exitStatus (run sh argv) = Some 0%N
   <-> forall p, In p names -> needsUpdateOf sh options p = false) /\
  (exitStatus (run sh argv) = Some 1%N
   <-> exists p, In p names /\ needsUpdateOf sh options p = true) /\
  (exitStatus (run sh argv) = Some 0%N \/ exitStatus (run sh argv) = Some 1%N) /\
  (names = [] -> run sh argv = (Exit 0%N, preamble ++ [Msg.noChanges])).
Proof.
  intros options names. rewrite exitStatus_run. fold options. fold names.
  destruct (existsb (needsUpdateOf sh options) names) eqn:E.
  - apply existsb_exists in E. destruct E as (p & Hin & Hp).
    repeat split; try discriminate; auto.
    + intros H. rewrite (H p Hin) in Hp. discriminate.
    + intros _. exists p; auto.
    + intros Hnil. rewrite Hnil in Hin. destruct Hin.
  - assert (A : forall p, In p names -> needsUpdateOf sh options p = false).
    { intros p Hin. destruct (needsUpdateOf sh options p) eqn:Hp; [|reflexivity].
      assert (X : existsb (needsUpdateOf sh options) names = true)
        by (apply existsb_exists; exists p; auto).
      congruence. }
    repeat split; auto; try discriminate.
    + intros (p & Hin & Hp). rewrite (A p Hin) in Hp. discriminate.
    + intros Hnil. rewrite main_run. fold options. fold names.
      rewrite Hnil. reflexivity.
Qed.

Lemma exit_status_iff_no_bump_required_witness :
  run silentShell argv0 = (Exit 0%N, preamble ++ [Msg.noChanges]).
Proof.
  apply (exit_status_iff_no_bump_required silentShell argv0). reflexivity.
Defined.

(** ** The report *)

Lemma reportEntries_skip (pre rest : list jsstring) :
  Forall (fun line => startsWith Msg.checkingPrefix line = false) pre ->
  reportEntries (pre ++ rest) = reportEntries rest.
Proof.
  induction 1 as [|line pre Hline _ IH]; cbn [app reportEntries]; [reflexivity|].
  rewrite Hline. exact IH.
Qed.

Lemma startsWith_app (p s : jsstring) : startsWith p (p ++ s) = true.
Proof.
  induction p as [|c p IH]; simpl; [reflexivity|].
  rewrite N.eqb_refl. exact IH.
Qed.

Lemma skipn_prefix (p s : jsstring) : skipn (length p) (p ++ s) = s.
Proof. induction p; simpl; auto. Qed.

Lemma reportEntries_block (sh : Shell) (options : Options) (p : jsstring)
    (rest : list jsstring) :
  reportEntries (block sh options p ++ rest)
  = (p, Some (needsUpdateOf sh options p)) :: reportEntries rest.
Proof.
  unfold block. cbn [app].
  change (reportEntries (Msg.checking p :: ?l)) with
    (if startsWith Msg.checkingPrefix (Msg.checking p)
     then (skipn (length Msg.checkingPrefix) (Msg.checking p),
           match l with next :: _ => verdictOfLine next | [] => None end)
          :: reportEntries l
     else reportEntries l).
  unfold Msg.checking. rewrite startsWith_app, skipn_prefix.
  destruct (needsUpdateOf sh options p); reflexivity.
Qed.

Lemma reportEntries_blocks (sh : Shell) (options : Options)
    (names rest : list jsstring) :
  reportEntries (flat_map (block sh options) names ++ rest)
  = map (fun p => (p, Some (needsUpdateOf sh options p))) names
    ++ reportEntries rest.
Proof.
  induction names as [|p names IH]; [reflexivity|].
  cbn [flat_map map]. rewrite <- app_assoc, reportEntries_block, IH. reflexivity.
Qed.

Lemma reportEntries_closing (names needing : list jsstring) :
  reportEntries (summaryLines names needing ++ closing needing) = [].
Proof.
  rewrite <- (app_nil_r (summaryLines names needing ++ closing needing)).
  apply reportEntries_skip. apply Forall_app. split.
  - repeat constructor.
  - unfold closing. destruct (0 <? length needing).
    + constructor; [reflexivity|]. apply Forall_app. split.
      * apply Forall_forall. intros line Hin. apply in_map_iff in Hin.
        destruct Hin as (q & <- & _). reflexivity.
      * repeat constructor.
    + repeat constructor.
Qed.

Lemma reportEntries_run (sh : Shell) (argv : list jsstring) :
  reportEntries (printed (run sh argv))
  = map (fun p => (p, Some (needsUpdateOf sh (parseArgs argv) p)))
        (changedPluginsOf sh (parseArgs argv)).
Proof.
  rewrite main_run. destruct (changedPluginsOf sh (parseArgs argv)) as [|p names].
  - reflexivity.
  - unfold printed, snd.
    rewrite (reportEntries_skip preamble) by (repeat constructor).
    rewrite (reportEntries_skip [_; _]) by (repeat constructor).
    rewrite reportEntries_blocks, reportEntries_closing, app_nil_r. reflexivity.
Qed.

(** ** The resolver as [getChangedPlugins] exposes it *)

(** C2, as stated, fails: the query fails under [failingShell] and succeeds
    with no change under [silentShell], and [getChangedPlugins] hands the
    caller the same value, after which the two runs print the same lines and
    exit with the same status. *)
Lemma failed_query_same_as_no_changes :
  raw_text failingShell (resolverCommand defaultOptions) = Rejected (ShellError 128) /\
  raw_text silentShell (resolverCommand defaultOptions) = Fulfilled [] /\
  getChangedPlugins failingShell defaultOptions []
  = getChangedPlugins silentShell defaultOptions [] /\
  run failingShell argv0 = run silentShell argv0.
Proof. repeat split. Qed.

(** C2, amended. When the resolver query fails, [getChangedPlugins] returns
    the empty list without raising anything: the very value it returns when
    the query succeeds and reports no change.  The run then prints "No plugin
    changes detected" and exits with status 0. *)
Theorem failed_query_returns_empty
    (sh : Shell) (argv : list jsstring) (e : exn) (out : list jsstring) :
  raw_text sh (resolverCommand (parseArgs argv)) = Rejected e ->
  getChangedPlugins sh (parseArgs argv) out = (Normal [], out) /\
  (forall sh', raw_text sh' (resolverCommand (parseArgs argv)) = Fulfilled [] ->
               getChangedPlugins sh' (parseArgs argv) out
               = getChangedPlugins sh (parseArgs argv) out) /\
  run sh argv = (Exit 0%N, preamble ++ [Msg.noChanges]).
Proof.
  intros H.
  assert (E := changedPluginsOf_rejected sh (parseArgs argv) e H).
  split; [|split].
  - rewrite getChangedPlugins_run, E. reflexivity.
  - intros sh' H'. rewrite !getChangedPlugins_run, E.
    rewrite (changedPluginsOf_fulfilled sh' (parseArgs argv) [] H'). reflexivity.
  - rewrite main_run, E. reflexivity.
Qed.

Lemma failed_query_returns_empty_witness :
  run failingShell argv0 = (Exit 0%N, preamble ++ [Msg.noChanges]).
Proof.
  apply (failed_query_returns_empty failingShell argv0 (ShellError 128) []).
  reflexivity.
Defined.

(** ** The command line *)

Lemma scanArgs_snoc (pre : list jsstring) (a : jsstring) :
  scanArgs (pre ++ [a]) = scanArg (scanArgs pre) a.
Proof. unfold scanArgs. rewrite fold_left_app. reflexivity. Qed.

Lemma nth_error_middle (pre rest : list jsstring) (a : jsstring) :
  nth_error (pre ++ a :: rest) (length pre) = Some a.
Proof.
  rewrite nth_error_app2 by lia. rewrite Nat.sub_diag. reflexivity.
Qed.

Lemma ltb_middle (pre rest : list jsstring) :
  (length pre <? length (pre ++ rest)) = negb (Nat.eqb (length rest) 0).
Proof.
  rewrite length_app. destruct rest as [|a rest]; simpl.
  - apply Nat.ltb_ge. lia.
  - apply Nat.ltb_lt. lia.
Qed.

(** The loop, started at the end of [pre] with enough iterations left for
    [rest], returns what the machine computes on [rest]. *)
Lemma parseArgs_loop_scan (n : nat) :
  forall (rest pre : list jsstring) (o : Options) (reads : list read) (fuel : nat),
    length rest <= n -> length rest <= fuel -> length reads = length pre ->
    parseArgs_loop fuel (pre ++ rest) (length pre) o reads
    = let st := fold_left scanArg rest (Scanning o reads) in
      Returned (scanOptions st) (scanReads st).
Proof.
  induction n as [|n IH]; intros rest pre o reads fuel Hn Hf Hr.
  - destruct rest; [|simpl in Hn; lia].
    destruct fuel; simpl; rewrite app_nil_r, Nat.ltb_irrefl; reflexivity.
  - destruct rest as [|a rest].
    { destruct fuel; simpl; rewrite app_nil_r, Nat.ltb_irrefl; reflexivity. }
    destruct fuel as [|fuel]; [simpl in Hf; lia|].
    simpl in Hn, Hf.
    cbn [parseArgs_loop]. rewrite ltb_middle. cbn [length Nat.eqb negb].
    rewrite nth_error_middle. cbn [fold_left scanArg]. rewrite Hr.
    assert (Hpre : pre ++ a :: rest = (pre ++ [a]) ++ rest)
      by (rewrite <- app_assoc; reflexivity).
    assert (Hlen : length pre + 1 = length (pre ++ [a]))
      by (rewrite length_app; reflexivity).
    destruct (eqb a (lit "--staged")).
    { rewrite Hpre, Hlen. apply IH; try lia.
      rewrite !length_app. simpl. lia. }
    destruct (eqb a (lit "--branch")); cbn [andb].
    + destruct rest as [|b rest].
      * replace (length pre + 1 <? length (pre ++ [a])) with false
          by (symmetry; apply Nat.ltb_ge; rewrite length_app; simpl; lia).
        rewrite Hlen. rewrite <- (app_nil_r (pre ++ [a])) at 1.
        rewrite (IH [] (pre ++ [a]) o _ fuel); simpl; try lia.
        -- reflexivity.
        -- rewrite !length_app. simpl. lia.
      * replace (length pre + 1 <? length (pre ++ a :: b :: rest)) with true
          by (symmetry; apply Nat.ltb_lt; rewrite length_app; simpl; lia).
        assert (Hpre2 : pre ++ a :: b :: rest = (pre ++ [a; b]) ++ rest)
          by (rewrite <- app_assoc; reflexivity).
        assert (Hnth : nth_error (pre ++ a :: b :: rest) (length pre + 1) = Some b).
        { rewrite Hpre, Hlen. apply nth_error_middle. }
        rewrite Hnth.
        assert (Hlen2 : length pre + 1 + 1 = length (pre ++ [a; b]))
          by (rewrite length_app; simpl; lia).
        rewrite Hpre2, Hlen2. simpl in Hn, Hf.
        rewrite (IH rest (pre ++ [a; b])); try lia.
        -- cbn [fold_left scanArg]. rewrite length_app. simpl length.
           rewrite Hr. reflexivity.
        -- rewrite !length_app. simpl. lia.
    + rewrite Hpre, Hlen. apply IH; try lia.
      rewrite !length_app. simpl. lia.
Qed.

Lemma parseArgs_run_scan (argv : list jsstring) :
  parseArgs_run argv
  = Returned (scanOptions (scanArgs (slice2 argv))) (scanReads (scanArgs (slice2 argv))).
Proof.
  unfold parseArgs_run.
  apply (parseArgs_loop_scan (length (slice2 argv)) (slice2 argv) [] defaultOptions []);
    auto.
Qed.

Lemma parseArgs_scan (argv : list jsstring) :
  parseArgs argv = scanOptions (scanArgs (slice2 argv)).
Proof. unfold parseArgs. rewrite parseArgs_run_scan. reflexivity. Qed.

Lemma readsOf_scan (argv : list jsstring) :
  readsOf argv = scanReads (scanArgs (slice2 argv)).
Proof. unfold readsOf. rewrite parseArgs_run_scan. reflexivity. Qed.

(** *** Invariants of the machine *)

Lemma scanReads_step (st : scanState) (a : jsstring) :
  exists r, scanReads (scanArg st a) = scanReads st ++ [r]
            /\ readIndex r = length (scanReads st).
Proof.
  destruct st as [o reads | o reads]; simpl.
  - destruct (eqb a (lit "--staged")); [|destruct (eqb a (lit "--branch"))];
      eexists; split; reflexivity.
  - eexists; split; reflexivity.
Qed.

(** Every index of the arguments is read once, in increasing order. *)
Lemma scanReads_indices (args : list jsstring) :
  map readIndex (scanReads (scanArgs args)) = seq 0 (length args).
Proof.
  induction args as [|a pre IH] using rev_ind; [reflexivity|].
  rewrite scanArgs_snoc.
  destruct (scanReads_step (scanArgs pre) a) as (r & -> & Hr).
  rewrite map_app, IH, length_app, seq_app. simpl.
  rewrite Hr, <- (length_map readIndex), IH, length_seq. reflexivity.
Qed.

Lemma scanReads_length (args : list jsstring) :
  length (scanReads (scanArgs args)) = length args.
Proof.
  rewrite <- (length_map readIndex), scanReads_indices, length_seq. reflexivity.
Qed.

Lemma scanReads_bound (args : list jsstring) (r : read) :
  In r (scanReads (scanArgs args)) -> readIndex r < length args.
Proof.
  intros Hin. apply (in_map readIndex) in Hin.
  rewrite scanReads_indices in Hin. apply in_seq in Hin. lia.
Qed.

Lemma lastValue_snoc_flag (reads : list read) (i : nat) :
  lastValue (reads ++ [AsFlag i]) = lastValue reads.
Proof.
  induction reads as [|r reads IH]; [reflexivity|].
  simpl. rewrite IH. reflexivity.
Qed.

Lemma lastValue_snoc_value (reads : list read) (j : nat) :
  lastValue (reads ++ [AsValue j]) = Some j.
Proof.
  induction reads as [|r reads IH]; [reflexivity|].
  simpl. rewrite IH. reflexivity.
Qed.

Lemma lastValue_In (reads : list read) (j : nat) :
  lastValue reads = Some j -> In (AsValue j) reads.
Proof.
  induction reads as [|r reads IH]; simpl; [discriminate|].
  destruct (lastValue reads) as [k|].
  - intros H. right. apply IH. exact H.
  - destruct r; [discriminate|]. intros H. injection H as ->. left. reflexivity.
Qed.

Lemma lastValue_None (reads : list read) :
  (forall j, ~ In (AsValue j) reads) -> lastValue reads = None.
Proof.
  intros H. destruct (lastValue reads) as [j|] eqn:E; [|reflexivity].
  exfalso. exact (H j (lastValue_In reads j E)).
Qed.

Lemma branch_neq_staged : eqb (lit "--branch") (lit "--staged") = false.
Proof. reflexivity. Qed.

(** The machine waits for a value exactly when the last argument was read
    as a flag and is [--branch]. *)
Lemma scan_pending (pre : list jsstring) (a : jsstring) :
  (exists o reads, scanArgs (pre ++ [a]) = AfterBranch o reads)
  <-> In (AsFlag (length pre)) (scanReads (scanArgs (pre ++ [a])))
      /\ a = lit "--branch".
Proof.
  rewrite scanArgs_snoc.
  assert (Hlen := scanReads_length pre).
  assert (Hb := scanReads_bound pre).
  destruct (scanArgs pre) as [o reads | o reads]; simpl in *.
  - destruct (eqb a (lit "--staged")) eqn:Es.
    + apply eqb_eq in Es. subst a. split.
      * intros (o' & r' & H). discriminate.
      * intros [_ H]. discriminate.
    + destruct (eqb a (lit "--branch")) eqn:Eb.
      * apply eqb_eq in Eb. subst a. split.
        -- intros _. split; [|reflexivity]. apply in_or_app. right. left.
           rewrite Hlen. reflexivity.
        -- intros _. eauto.
      * apply eqb_neq in Eb. split.
        -- intros (o' & r' & H). discriminate.
        -- intros [_ H]. contradiction.
  - split.
    + intros (o' & r' & H). discriminate.
    + intros [H _]. apply in_app_or in H. destruct H as [H | [H | []]].
      * apply Hb in H. simpl in H. lia.
      * discriminate.
Qed.

Lemma scan_pending_nil : ~ exists o reads, scanArgs [] = AfterBranch o reads.
Proof. intros (o & r & H). discriminate. Qed.

(** [staged] is set exactly by a [--staged] read as a flag. *)
Lemma scan_staged (args : list jsstring) :
  staged (scanOptions (scanArgs args)) = true
  <-> exists i, In (AsFlag i) (scanReads (scanArgs args))
                /\ nth_error args i = Some (lit "--staged").
Proof.
  induction args as [|a pre IH] using rev_ind.
  - simpl. split; [discriminate | intros (i & [] & _)].
  - rewrite scanArgs_snoc.
    assert (Hlen := scanReads_length pre).
    assert (Hb := scanReads_bound pre).
    assert (Hold : forall i, In (AsFlag i) (scanReads (scanArgs pre)) ->
              nth_error (pre ++ [a]) i = nth_error pre i).
    { intros i Hr. apply nth_error_app1. apply (Hb _ Hr). }
    assert (Hnew : nth_error (pre ++ [a]) (length pre) = Some a)
      by apply nth_error_middle.
    destruct (scanArgs pre) as [o reads | o reads]; simpl in *.
    + destruct (eqb a (lit "--staged")) eqn:Es; simpl.
      * apply eqb_eq in Es. subst a. split; [|reflexivity].
        intros _. exists (length pre). split; [|exact Hnew].
        apply in_or_app. right. left. rewrite Hlen. reflexivity.
      * assert (Hstep : staged o = true <->
                  exists i, In (AsFlag i) (reads ++ [AsFlag (length reads)])
                            /\ nth_error (pre ++ [a]) i = Some (lit "--staged")).
        { rewrite IH. split.
          - intros (i & Hin & Hn). exists i. split; [apply in_or_app; auto|].
            rewrite (Hold _ Hin). exact Hn.
          - intros (i & Hin & Hn). apply in_app_or in Hin.
            destruct Hin as [Hin | [Hin | []]].
            + exists i. split; [exact Hin|]. rewrite <- (Hold _ Hin). exact Hn.
            + injection Hin as <-. rewrite Hlen, Hnew in Hn.
              injection Hn as ->. rewrite eqb_refl in Es. discriminate. }
        destruct (eqb a (lit "--branch")); simpl; exact Hstep.
    + rewrite IH. split.
      * intros (i & Hin & Hn). exists i. split; [apply in_or_app; auto|].
        rewrite (Hold _ Hin). exact Hn.
      * intros (i & Hin & Hn). apply in_app_or in Hin.
        destruct Hin as [Hin | [Hin | []]]; [|discriminate].
        exists i. split; [exact Hin|]. rewrite <- (Hold _ Hin). exact Hn.
Qed.

(** [branch] is the argument read last as a value, [HEAD] without one. *)
Lemma scan_branch (args : list jsstring) :
  branch (scanOptions (scanArgs args))
  = match lastValue (scanReads (scanArgs args)) with
    | Some j => nth j args (lit "HEAD")
    | None => lit "HEAD"
    end.
Proof.
  induction args as [|a pre IH] using rev_ind; [reflexivity|].
  rewrite scanArgs_snoc.
  assert (Hlen := scanReads_length pre).
  assert (Hb := scanReads_bound pre).
  assert (Hkeep : branch (scanOptions (scanArgs pre))
                  = match lastValue (scanReads (scanArgs pre)) with
                    | Some j => nth j (pre ++ [a]) (lit "HEAD")
                    | None => lit "HEAD"
                    end).
  { rewrite IH. destruct (lastValue (scanReads (scanArgs pre))) as [j|] eqn:E;
      [|reflexivity].
    apply lastValue_In, Hb in E. simpl in E. rewrite app_nth1 by exact E.
    reflexivity. }
  destruct (scanArgs pre) as [o reads | o reads]; simpl in *.
  - destruct (eqb a (lit "--staged")); [|destruct (eqb a (lit "--branch"))];
      simpl; rewrite lastValue_snoc_flag; exact Hkeep.
  - rewrite lastValue_snoc_value, Hlen, app_nth2, Nat.sub_diag by lia.
    reflexivity.
Qed.

Lemma scan_pending_iff (args : list jsstring) :
  (exists o reads, scanArgs args = AfterBranch o reads)
  <-> exists i, length args = S i
                /\ In (AsFlag i) (scanReads (scanArgs args))
                /\ nth_error args i = Some (lit "--branch").
Proof.
  destruct args as [|a0 args0] using rev_ind.
  - split; [intros H; destruct (scan_pending_nil H) | intros (i & H & _); discriminate].
  - clear IHargs0. rewrite scan_pending. split.
    + intros [Hin ->]. exists (length args0). split; [|split; [exact Hin|]].
      * rewrite length_app. simpl. lia.
      * apply nth_error_middle.
    + intros (i & Hlen & Hin & Hn). rewrite length_app in Hlen. simpl in Hlen.
      assert (i = length args0) by lia. subst i.
      rewrite nth_error_middle in Hn. injection Hn as ->. auto.
Qed.

Lemma scanReads_scanning (o : Options) (reads : list read) (a : jsstring) :
  scanReads (scanArg (Scanning o reads) a) = reads ++ [AsFlag (length reads)].
Proof.
  simpl. destruct (eqb a (lit "--staged")); [|destruct (eqb a (lit "--branch"))];
    reflexivity.
Qed.

(** An argument is read as a value exactly when it follows a [--branch]
    read as a flag. *)
Lemma scan_values (args : list jsstring) (j : nat) :
  In (AsValue j) (scanReads (scanArgs args))
  <-> exists i, j = S i /\ In (AsFlag i) (scanReads (scanArgs args))
                /\ nth_error args i = Some (lit "--branch") /\ j < length args.
Proof.
  revert j. induction args as [|a pre IH] using rev_ind; intros j.
  - simpl. split; [intros [] | intros (i & _ & [] & _)].
  - assert (Hpend := scan_pending_iff pre).
    assert (Hb := scanReads_bound pre).
    assert (Hlen := scanReads_length pre).
    rewrite scanArgs_snoc. rewrite length_app. simpl length.
    assert (Hold : forall i, i < length pre ->
              nth_error (pre ++ [a]) i = nth_error pre i)
      by (intros i Hi; apply nth_error_app1; exact Hi).
    destruct (scanArgs pre) as [o reads | o reads].
    + rewrite scanReads_scanning. simpl in IH, Hb, Hlen, Hpend.
      assert (Hnot : ~ exists i, length pre = S i /\ In (AsFlag i) reads
                                 /\ nth_error pre i = Some (lit "--branch")).
      { intros H. apply Hpend in H. destruct H as (o' & r' & H). discriminate. }
      split.
      * intros Hin. apply in_app_or in Hin.
        destruct Hin as [Hin | [Hin | []]]; [|discriminate].
        apply IH in Hin. destruct Hin as (i & -> & Hi & Hn & Hj).
        exists i. split; [reflexivity|]. split; [apply in_or_app; auto|].
        split; [rewrite Hold by lia; exact Hn | lia].
      * intros (i & -> & Hi & Hn & Hj). apply in_app_or in Hi.
        destruct Hi as [Hi | [Hi | []]].
        -- assert (Hil := Hb _ Hi). simpl in Hil. rewrite Hold in Hn by exact Hil.
           apply in_or_app. left. apply IH. exists i.
           repeat split; auto.
           destruct (Nat.eq_dec (S i) (length pre)) as [Hlast | Hne]; [|lia].
           exfalso. apply Hnot. exists i. auto.
        -- injection Hi as <-. lia.
    + simpl scanArg. simpl scanReads. simpl in IH, Hb, Hlen, Hpend.
      assert (P : exists i, length pre = S i /\ In (AsFlag i) reads
                            /\ nth_error pre i = Some (lit "--branch"))
        by (apply Hpend; eauto).
      split.
      * intros Hin. apply in_app_or in Hin. destruct Hin as [Hin | [Hin | []]].
        -- apply IH in Hin. destruct Hin as (i & -> & Hi & Hn & Hj).
           exists i. split; [reflexivity|]. split; [apply in_or_app; auto|].
           split; [rewrite Hold by lia; exact Hn | lia].
        -- injection Hin as <-. destruct P as (i & Hl & Hi & Hn).
           exists i. split; [lia|]. split; [apply in_or_app; auto|].
           split; [rewrite Hold by lia; exact Hn | lia].
      * intros (i & -> & Hi & Hn & Hj). apply in_app_or in Hi.
        destruct Hi as [Hi | [Hi | []]]; [|discriminate].
        assert (Hil := Hb _ Hi). simpl in Hil. rewrite Hold in Hn by exact Hil.
        destruct (Nat.eq_dec (S i) (length pre)) as [Hlast | Hne].
        -- apply in_or_app. right. left. rewrite Hlen, Hlast. reflexivity.
        -- apply in_or_app. left. apply IH. exists i. repeat split; auto. lia.
Qed.

(** No argument is read both as a flag and as a value. *)
Lemma scan_flag_xor_value (args : list jsstring) (i : nat) :
  i < length args ->
  (In (AsFlag i) (scanReads (scanArgs args))
   <-> ~ In (AsValue i) (scanReads (scanArgs args))).
Proof.
  intros Hi.
  assert (Hidx := scanReads_indices args).
  assert (Hnd : NoDup (map readIndex (scanReads (scanArgs args))))
    by (rewrite Hidx; apply seq_NoDup).
  assert (Hin : In i (map readIndex (scanReads (scanArgs args))))
    by (rewrite Hidx; apply in_seq; lia).
  revert Hnd Hin. generalize (scanReads (scanArgs args)) as reads.
  induction reads as [|r reads IH]; simpl; [intros _ []|].
  intros Hnd Hin. inversion Hnd as [|x l Hx Hnd']; subst.
  assert (Hout : forall r', In r' reads -> readIndex r' <> readIndex r).
  { intros r' Hr' Heq. apply Hx. rewrite <- Heq. apply in_map. exact Hr'. }
  destruct Hin as [Hr | Hin].
  - split.
    + intros [Hf | Hf] [Hv | Hv].
      * subst r. discriminate.
      * apply (Hout _ Hv). simpl. auto.
      * apply (Hout _ Hf). simpl. auto.
      * apply (Hout _ Hv). simpl. auto.
    + intros Hv. destruct r as [k | k]; simpl in Hr; subst k; [left; reflexivity|].
      exfalso. apply Hv. left. reflexivity.
  - specialize (IH Hnd' Hin).
    assert (Hri : readIndex r <> i).
    { intros Heq. apply Hx. rewrite Heq. exact Hin. }
    split.
    + intros [Hf | Hf] [Hv | Hv].
      * subst r. discriminate.
      * subst r. simpl in Hri. congruence.
      * subst r. simpl in Hri. congruence.
      * apply IH in Hf. contradiction.
    + intros Hv. right. apply IH. intros Hv'. apply Hv. right. exact Hv'.
Qed.

(** C8, as stated, fails: in [--branch --staged] the flag [--staged] is
    present, yet Staged mode is not selected; the argument is taken as the
    ref of [--branch]. *)
Lemma staged_present_not_selected :
  ~ (staged (parseArgs argvBranchStaged) = true
     <-> In (lit "--staged") (slice2 argvBranchStaged)).
Proof.
  intros [_ H].
  assert (X : staged (parseArgs argvBranchStaged) = true).
  { apply H. right. left. reflexivity. }
  discriminate X.
Qed.

(** C8, amended. The loop reads every argument either as a flag or as the
    value of the [--branch] flag just before it.  Staged mode is selected if
    and only if [--staged] is read as a flag; an argument is taken as the
    ref if and only if it follows a [--branch] read as a flag, and the ref
    returned is the one taken last, [HEAD] when none is.  When [--branch]
    does not occur, Staged mode is selected if and only if [--staged] is
    present and the ref is [HEAD]. *)
Theorem parseArgs_flags_and_values (bun script : jsstring) (args : list jsstring) :
  let argv := bun :: script :: args in
  let options := parseArgs argv in
  let reads := readsOf argv in
  (staged options = true
   <-> exists i, In (AsFlag i) reads /\ nth_error args i = Some (lit "--staged")) /\
  (forall j, In (AsValue j) reads
             <-> exists i, j = S i /\ In (AsFlag i) reads
                           /\ nth_error args i = Some (lit "--branch")
                           /\ j < length args) /\
  (forall i, i < length args -> (In (AsFlag i) reads <-> ~ In (AsValue i) reads)) /\
  branch options = match lastValue reads with
                   | Some j => nth j args (lit "HEAD")
                   | None => lit "HEAD"
                   end /\
  (~ In (lit "--branch") args ->
   (staged options = true <-> In (lit "--staged") args)
   /\ branch options = lit "HEAD").
Proof.
  intros argv options reads. subst options reads.
  rewrite parseArgs_scan, readsOf_scan.
  change (slice2 argv) with args. clear argv.
  split; [apply scan_staged|]. split; [apply scan_values|].
  split; [apply scan_flag_xor_value|]. split; [apply scan_branch|].
  intros Hno.
  assert (Hnoval : forall j, ~ In (AsValue j) (scanReads (scanArgs args))).
  { intros j Hj. apply scan_values in Hj. destruct Hj as (i & _ & _ & Hn & _).
    apply Hno. eapply nth_error_In. exact Hn. }
  split.
  - rewrite scan_staged. split.
    + intros (i & _ & Hn). eapply nth_error_In. exact Hn.
    + intros Hin. apply In_nth_error in Hin. destruct Hin as (i & Hn).
      exists i. split; [|exact Hn].
      apply scan_flag_xor_value; [|apply Hnoval].
      apply nth_error_Some. congruence.
  - rewrite scan_branch, lastValue_None by exact Hnoval. reflexivity.
Qed.

Lemma parseArgs_flags_and_values_witness :
  branch (parseArgs (argv0 ++ [lit "--staged"])) = lit "HEAD".
Proof.
  destruct (parseArgs_flags_and_values
              (lit "bun") (lit "./scripts/check-plugin-versions.ts")
              [lit "--staged"]) as (_ & _ & _ & _ & H).
  apply H. simpl. intros [H' | []]. discriminate H'.
Defined.

(** C10, as stated, fails: in [--branch --branch v] the flag [--branch]
    occurs twice with a value, the last occurrence is followed by [v], and
    the branch returned is [--branch]; in [--branch --branch] the last
    argument is a [--branch] with no following value, and the branch does
    not stay [HEAD]. *)
Lemma last_branch_occurrence_not_returned :
  (nth_error (slice2 argvBranchBranch) 0 = Some (lit "--branch") /\
   nth_error (slice2 argvBranchBranch) 1 = Some (lit "--branch") /\
   nth_error (slice2 argvBranchBranch) 2 = Some (lit "v") /\
   branch (parseArgs argvBranchBranch) = lit "--branch" /\
   branch (parseArgs argvBranchBranch) <> lit "v") /\
  (last (slice2 argvBranchTwice) [] = lit "--branch" /\
   branch (parseArgs argvBranchTwice) = lit "--branch" /\
   branch (parseArgs argvBranchTwice) <> lit "HEAD").
Proof. repeat split; discriminate. Qed.

Lemma slice2_app (bun script : jsstring) (args more : list jsstring) :
  slice2 ((bun :: script :: args) ++ more) = args ++ more.
Proof. reflexivity. Qed.

(** C10, amended. [parseArgs] is total and never reads past the end: with
    one iteration per argument (or more) the loop returns, having read every
    index below the length once, in increasing order.  A [--branch] that the
    loop reads as a flag at the last position is ignored, so the branch stays
    [HEAD] when there is no other [--branch]; the branch returned is the
    value read last, so a later [--branch] read as a flag before a value
    overrides the earlier ones.  (A [--branch] that is itself the value of
    the [--branch] before it is not read as a flag.) *)
Theorem parseArgs_total_in_range (bun script : jsstring) (args : list jsstring) :
  let argv := bun :: script :: args in
  (exists options reads,
      parseArgs_run argv = Returned options reads /\
      parseArgs argv = options /\
      (forall fuel, length args <= fuel ->
                    parseArgs_loop fuel args 0 defaultOptions [] = Returned options reads) /\
      map readIndex reads = seq 0 (length args) /\
      (forall r, In r reads -> readIndex r < length args) /\
      branch options = match lastValue reads with
                       | Some j => nth j args (lit "HEAD")
                       | None => lit "HEAD"
                       end) /\
  (In (AsFlag (length args)) (readsOf (argv ++ [lit "--branch"])) ->
   parseArgs (argv ++ [lit "--branch"]) = parseArgs argv) /\
  (forall v, In (AsFlag (length args)) (readsOf (argv ++ [lit "--branch"; v])) ->
             branch (parseArgs (argv ++ [lit "--branch"; v])) = v) /\
  (~ In (lit "--branch") args ->
   branch (parseArgs (argv ++ [lit "--branch"])) = lit "HEAD").
Proof.
  intros argv. subst argv.
  assert (Hb := scanReads_bound args).
  split; [|split; [|split]].
  - exists (scanOptions (scanArgs args)), (scanReads (scanArgs args)).
    split; [apply parseArgs_run_scan|]. split; [apply parseArgs_scan|].
    split; [|split; [|split]].
    + intros fuel Hf.
      apply (parseArgs_loop_scan (length args) args [] defaultOptions [] fuel); auto.
    + apply scanReads_indices.
    + exact Hb.
    + apply scan_branch.
  - rewrite readsOf_scan, !parseArgs_scan, slice2_app, scanArgs_snoc.
    change (slice2 (bun :: script :: args)) with args.
    destruct (scanArgs args) as [o reads | o reads]; simpl in *.
    + intros _. reflexivity.
    + intros H. apply in_app_or in H. destruct H as [H | [H | []]].
      * apply Hb in H. simpl in H. lia.
      * discriminate.
  - intros v. rewrite readsOf_scan, parseArgs_scan, slice2_app.
    change [lit "--branch"; v] with ([lit "--branch"] ++ [v]).
    rewrite app_assoc, !scanArgs_snoc.
    assert (Hlen := scanReads_length args).
    destruct (scanArgs args) as [o reads | o reads]; simpl in Hb, Hlen.
    + intros _. reflexivity.
    + intros H. exfalso.
      change (scanArg (AfterBranch o reads) (lit "--branch"))
        with (Scanning (mkOptions (staged o) (lit "--branch"))
                       (reads ++ [AsValue (length reads)])) in H.
      rewrite scanReads_scanning in H.
      apply in_app_or in H. destruct H as [H | [H | []]].
      * apply in_app_or in H. destruct H as [H | [H | []]].
        -- apply Hb in H. simpl in H. lia.
        -- discriminate.
      * injection H as H. rewrite length_app in H. simpl in H. lia.
  - intros Hno. rewrite parseArgs_scan, slice2_app, scanArgs_snoc.
    assert (Hpend := scan_pending_iff args).
    assert (Hbr := scan_branch args).
    assert (Hnoval : forall j, ~ In (AsValue j) (scanReads (scanArgs args))).
    { intros j Hj. apply scan_values in Hj. destruct Hj as (i & _ & _ & Hn & _).
      apply Hno. eapply nth_error_In. exact Hn. }
    rewrite (lastValue_None _ Hnoval) in Hbr.
    destruct (scanArgs args) as [o reads | o reads]; simpl in *.
    + exact Hbr.
    + exfalso. destruct (proj1 Hpend) as (i & _ & _ & Hn); [eauto|].
      apply Hno. eapply nth_error_In. exact Hn.
Qed.

Lemma parseArgs_total_in_range_witness :
  parseArgs (argv0 ++ [lit "--staged"; lit "--branch"])
  = parseArgs (argv0 ++ [lit "--staged"]).
Proof.
  apply (parseArgs_total_in_range
           (lit "bun") (lit "./scripts/check-plugin-versions.ts") [lit "--staged"]).
  vm_compute. right. left. reflexivity.
Defined.

(** ** Failures of the policy check *)




(** ** The decision rule of the evaluator *)

Module EvaluatorFacts.
Import Evaluator.

Lemma versions_In (contents : list jsstring) (v : jsstring) :
  In v (versions contents)
  <-> exists c, In c contents /\ versionValue c = Some v.
Proof.
  induction contents as [|c contents IH]; simpl.
  - split; [intros [] | intros (c & [] & _)].
  - destruct (versionValue c) as [w|] eqn:E; simpl; rewrite IH; split.
    + intros [-> | (c' & Hin & Hv)]; [exists c; auto | exists c'; auto].
    + intros (c' & [<- | Hin] & Hv); [left; congruence | right; exists c'; auto].
    + intros (c' & Hin & Hv). exists c'; auto.
    + intros (c' & [<- | Hin] & Hv); [congruence | exists c'; auto].
Qed.

Lemma axisA_spec (added removed : list jsstring) :
  axisA added removed = true <-> VersionChanged added removed.
Proof.
  unfold axisA, VersionChanged. rewrite existsb_exists. split.
  - intros (v1 & H1 & H). apply existsb_exists in H. destruct H as (v2 & H2 & Hne).
    apply versions_In in H1. destruct H1 as (c1 & Hc1 & Hv1).
    apply versions_In in H2. destruct H2 as (c2 & Hc2 & Hv2).
    exists c1, c2, v1, v2. repeat split; auto.
    apply eqb_neq. destruct (eqb v1 v2); [discriminate | reflexivity].
  - intros (c1 & c2 & v1 & v2 & Hc1 & Hc2 & Hv1 & Hv2 & Hne).
    exists v1. split; [apply versions_In; exists c1; auto|].
    apply existsb_exists. exists v2. split; [apply versions_In; exists c2; auto|].
    apply eqb_neq in Hne. rewrite Hne. reflexivity.
Qed.

Lemma axisB_spec (added removed : list jsstring) :
  axisB added removed = true <-> FieldChanged added removed.
Proof.
  unfold axisB, FieldChanged. rewrite existsb_exists. split.
  - intros (c & Hin & Hf). exists c. split; [apply in_app_or; exact Hin | exact Hf].
  - intros (c & Hin & Hf). exists c. split; [apply in_or_app; exact Hin | exact Hf].
Qed.

(** C1. [evaluate] returns BumpRequired if and only if the diff parses, some
    non-version, non-whitespace, non-comment field is among its added or
    removed lines (axis b) and no version line is both added and removed
    with different values (axis a); whenever the version itself changed the
    verdict is NoBumpRequired, whatever else changed. *)
Theorem evaluate_decision_rule (diff : jsstring) :
  (evaluate diff = Verdict BumpRequired
   <-> exists added removed,
         parseDiff diff = Some (added, removed)
         /\ FieldChanged added removed /\ ~ VersionChanged added removed) /\
  (forall added removed,
      parseDiff diff = Some (added, removed) ->
      VersionChanged added removed ->
      evaluate diff = Verdict NoBumpRequired) /\
  (forall added removed,
      parseDiff diff = Some (added, removed) ->
      FieldChanged added removed ->
      versions added = [] -> versions removed = [] ->
      evaluate diff = Verdict BumpRequired).
Proof.
  unfold evaluate. destruct (parseDiff diff) as [[added removed]|].
  - assert (A := axisA_spec added removed). assert (B := axisB_spec added removed).
    split; [|split].
    + split.
      * intros H. exists added, removed.
        destruct (axisB added removed), (axisA added removed);
          simpl in H; try discriminate H.
        split; [reflexivity|]. split; [apply B; reflexivity|].
        intros Hv. apply A in Hv. discriminate Hv.
      * intros (a & r & H & Hb & Hn). injection H as <- <-.
        apply B in Hb. rewrite Hb.
        destruct (axisA added removed);
          [exfalso; apply Hn, A; reflexivity | reflexivity].
    + intros a r H Hv. injection H as <- <-. apply A in Hv. rewrite Hv.
      rewrite andb_false_r. reflexivity.
    + intros a r H Hb Ha Hr. injection H as <- <-. apply B in Hb. rewrite Hb.
      unfold axisA. rewrite Ha. reflexivity.
  - split; [|split]; try discriminate.
    split; [discriminate|]. intros (a & r & H & _). discriminate.
Qed.

Lemma evaluate_decision_rule_witness :
  evaluate scenarioB = Verdict NoBumpRequired.
Proof.
  refine (proj1 (proj2 (evaluate_decision_rule scenarioB)) _ _ eq_refl _).
  exists (kv "version" "1.0.1"), (kv "version" "1.0.0"), (lit "1.0.1"), (lit "1.0.0").
  repeat split; try (vm_compute; tauto). discriminate.
Defined.

(** Scenarios A, B and C of the specification. *)
Example evaluate_scenarioA : evaluate scenarioA = Verdict BumpRequired.
Proof. reflexivity. Qed.

Example evaluate_scenarioB : evaluate scenarioB = Verdict NoBumpRequired.
Proof. reflexivity. Qed.

Example evaluate_scenarioC : evaluate [] = Verdict NoBumpRequired.
Proof. reflexivity. Qed.

Example evaluate_unparseable : evaluate (lit "garbage") = Failed MalformedDiffError.
Proof. reflexivity. Qed.

End EvaluatorFacts.

(** * Further properties of the script *)

(** ** Staged mode cannot be taken back *)

Lemma scanArg_keeps_staged (st : scanState) (a : jsstring) :
  staged (scanOptions st) = true -> staged (scanOptions (scanArg st a)) = true.
Proof.
  destruct st as [o reads | o reads]; simpl; intros H.
  - destruct (eqb a (lit "--staged")); [reflexivity|].
    destruct (eqb a (lit "--branch")); exact H.
  - exact H.
Qed.

Lemma scan_keeps_staged (more : list jsstring) (st : scanState) :
  staged (scanOptions st) = true ->
  staged (scanOptions (fold_left scanArg more st)) = true.
Proof.
  revert st; induction more as [|a more IH]; intros st H; [exact H|].
  simpl. apply IH. apply scanArg_keeps_staged. exact H.
Qed.

(** X2. Once the arguments read so far select Staged mode, no further
    argument unselects it: [parseArgs] never resets [staged]. *)
Theorem staged_is_never_reset (bun script : jsstring) (args more : list jsstring) :
  staged (parseArgs (bun :: script :: args)) = true ->
  staged (parseArgs (bun :: script :: args ++ more)) = true.
Proof.
  rewrite !parseArgs_scan.
  change (slice2 (bun :: script :: args)) with args.
  change (slice2 (bun :: script :: args ++ more)) with (args ++ more).
  unfold scanArgs. rewrite fold_left_app. apply scan_keeps_staged.
Qed.

Lemma staged_is_never_reset_witness :
  staged (parseArgs (argv0 ++ [lit "--staged"] ++ [lit "--branch"; lit "main"])) = true.
Proof.
  apply (staged_is_never_reset (lit "bun") (lit "./scripts/check-plugin-versions.ts")
           [lit "--staged"] [lit "--branch"; lit "main"]).
  reflexivity.
Defined.

(** ** The names handed to [main] *)

Lemma split_pieces_no_sep (sep : N) (s piece : jsstring) :
  In piece (split sep s) -> ~ In sep piece.
Proof.
  revert piece; induction s as [|c s IH]; intros piece; simpl.
  - intros [<- | []] [].
  - destruct (N.eqb c sep) eqn:E.
    + intros [<- | Hin]; [intros [] | apply IH; exact Hin].
    + apply N.eqb_neq in E. destruct (split sep s) as [|first rest].
      * intros [<- | []] [Hc | []]. congruence.
      * intros [<- | Hin].
        -- intros [Hc | Hc]; [congruence|]. apply (IH first); [left; reflexivity | exact Hc].
        -- apply IH. right. exact Hin.
Qed.

(** X3. Every name [getChangedPlugins] returns is a non-empty string without
    a line feed, whatever the resolver script printed. *)
Theorem changed_plugin_names_are_lines
    (sh : Shell) (options : Options) (name : jsstring) :
  In name (changedPluginsOf sh options) ->
  name <> [] /\ ~ In LF name.
Proof.
  destruct (raw_text sh (resolverCommand options)) as [text | e] eqn:E.
  - rewrite (changedPluginsOf_fulfilled sh options text E).
    intros Hin. apply filter_In in Hin. destruct Hin as [Hin Hb]. split.
    + intros ->. discriminate Hb.
    + apply (split_pieces_no_sep LF (trim text)). exact Hin.
  - rewrite (changedPluginsOf_rejected sh options e E). intros [].
Qed.

Lemma changed_plugin_names_are_lines_witness :
  alpha <> [] /\ ~ In LF alpha.
Proof.
  apply (changed_plugin_names_are_lines duplicateShell defaultOptions alpha).
  vm_compute. left. reflexivity.
Defined.

(** ** Reading back what the resolver printed *)

















(** ** The summary and the closing list against the entries *)

Lemma required_entries (sh : Shell) (options : Options) (names : list jsstring) :
  map fst (filter isRequired
             (map (fun p => (p, Some (needsUpdateOf sh options p))) names))
  = filter (needsUpdateOf sh options) names.
Proof.
  induction names as [|p names IH]; [reflexivity|].
  cbn [map filter]. unfold isRequired at 1. cbn [snd].
  destruct (needsUpdateOf sh options p); cbn [map fst]; rewrite IH; reflexivity.
Qed.

Lemma In_printed_middle (a b c : list jsstring) (line : jsstring) :
  In line b -> In line (a ++ b ++ c).
Proof. intros H. apply in_or_app. right. apply in_or_app. left. exact H. Qed.

(** X5. A run either found no changed plugin, and then prints no entry and
    no summary but "No plugin changes detected", or its summary prints the
    number of entries of the report as "Total plugins changed" and the
    number of entries marked "Version update REQUIRED" as "Plugins requiring
    version update". *)
Theorem summary_counts_the_entries (sh : Shell) (argv : list jsstring) :
  let lines := printed (run sh argv) in
  let entries := reportEntries lines in
  (entries = [] /\ lines = preamble ++ [Msg.noChanges]) \/
  (entries <> [] /\
   In (Msg.total (length entries)) lines /\
   In (Msg.requiring (length (filter isRequired entries))) lines).
Proof.
  intros lines entries.
  assert (E : entries = map (fun p => (p, Some (needsUpdateOf sh (parseArgs argv) p)))
                            (changedPluginsOf sh (parseArgs argv)))
    by apply reportEntries_run.
  assert (Hreq : length (filter isRequired entries)
                 = length (filter (needsUpdateOf sh (parseArgs argv))
                                  (changedPluginsOf sh (parseArgs argv)))).
  { rewrite E, <- (required_entries sh (parseArgs argv)), length_map. reflexivity. }
  assert (Htot : length entries = length (changedPluginsOf sh (parseArgs argv)))
    by (rewrite E; apply length_map).
  rewrite Hreq, Htot. rewrite E. subst lines. clear E Hreq Htot entries.
  rewrite main_run.
  destruct (changedPluginsOf sh (parseArgs argv)) as [|p names].
  - left. split; reflexivity.
  - right. unfold printed, snd. split; [discriminate|]. split.
    + apply in_or_app. right. apply in_or_app. right. apply in_or_app. right.
      apply in_or_app. left. right. right. left. reflexivity.
    + apply in_or_app. right. apply in_or_app. right. apply in_or_app. right.
      apply in_or_app. left. right. right. right. left. reflexivity.
Qed.

Lemma itemLines_none (lines rest : list jsstring) :
  Forall (fun line => startsWith itemPrefix line = false) lines ->
  itemLines (lines ++ rest) = itemLines rest.
Proof.
  unfold itemLines. induction 1 as [|line lines Hline _ IH]; [reflexivity|].
  cbn [app filter]. rewrite Hline. exact IH.
Qed.

Lemma itemLines_blocks (sh : Shell) (options : Options) (names : list jsstring) :
  Forall (fun line => startsWith itemPrefix line = false)
         (flat_map (block sh options) names).
Proof.
  induction names as [|p names IH]; [constructor|].
  cbn [flat_map]. apply Forall_app. split; [|exact IH].
  unfold block. constructor; [reflexivity|].
  constructor; [destruct (needsUpdateOf sh options p); reflexivity|].
  constructor; [reflexivity | constructor].
Qed.

Lemma itemLines_items (plugins : list jsstring) :
  itemLines (map Msg.item plugins) = map Msg.item plugins.
Proof.
  unfold itemLines. induction plugins as [|p plugins IH]; [reflexivity|].
  cbn [map filter]. unfold Msg.item at 1. fold itemPrefix.
  rewrite startsWith_app. rewrite IH. reflexivity.
Qed.

Lemma itemLines_closing (needing : list jsstring) :
  itemLines (closing needing) = map Msg.item needing.
Proof.
  unfold closing. destruct needing as [|p needing]; [reflexivity|].
  change (0 <? length (p :: needing)) with true. cbv iota.
  rewrite (itemLines_none [Msg.following]) by (repeat constructor).
  unfold itemLines. rewrite filter_app. fold (itemLines (map Msg.item (p :: needing))).
  rewrite itemLines_items. cbn [filter].
  change (startsWith itemPrefix []) with false.
  change (startsWith itemPrefix Msg.failed) with false.
  cbv iota. apply app_nil_r.
Qed.

(** X6. The closing list of a run names exactly the plugins whose entry in
    the report says "Version update REQUIRED", in the order of the report,
    each with the path of its manifest; a run without such an entry prints
    no such line. *)
Theorem closing_list_is_required_entries (sh : Shell) (argv : list jsstring) :
  let lines := printed (run sh argv) in
  itemLines lines = map Msg.item (map fst (filter isRequired (reportEntries lines))).
Proof.
  intros lines. subst lines. rewrite reportEntries_run, required_entries.
  rewrite main_run.
  destruct (changedPluginsOf sh (parseArgs argv)) as [|p names]; [reflexivity|].
  unfold printed, snd.
  rewrite (itemLines_none preamble) by (repeat constructor).
  rewrite (itemLines_none [_; _]) by (repeat constructor).
  rewrite (itemLines_none _ _ (itemLines_blocks sh (parseArgs argv) (p :: names))).
  rewrite (itemLines_none (summaryLines _ _)) by (repeat constructor).
  apply itemLines_closing.
Qed.

(** ** The last line and the exit status *)

Lemma last_app_lines (l t : list jsstring) :
  t <> [] -> last (l ++ t) [] = last t [].
Proof.
  intros Ht. induction l as [|x l IH]; [reflexivity|].
  cbn [app]. destruct (l ++ t) eqn:E.
  - apply app_eq_nil in E. destruct E as [_ E]. congruence.
  - exact IH.
Qed.

Lemma last_closing (needing : list jsstring) :
  last (closing needing) []
  = if 0 <? length needing then Msg.failed else Msg.upToDate.
Proof.
  unfold closing. destruct (0 <? length needing); [|reflexivity].
  rewrite app_assoc. rewrite last_app_lines by discriminate. reflexivity.
Qed.

Lemma closing_nonempty (needing : list jsstring) : closing needing <> [].
Proof. unfold closing. destruct (0 <? length needing); discriminate. Qed.

(** X7. The last line a run prints tells its exit status: status 1 exactly
    when it is "Version check failed: Please update plugin versions", status
    0 exactly when it is "No plugin changes detected" or "All plugin versions
    are up to date!". *)
Theorem last_line_tells_exit_status (sh : Shell) (argv : list jsstring) :
  let final := last (printed (run sh argv)) [] in
  (exitStatus (run sh argv) = Some 1%N <-> final = Msg.failed) /\
  (exitStatus (run sh argv) = Some 0%N
   <-> final = Msg.noChanges \/ final = Msg.upToDate).
Proof.
  intros final. subst final. rewrite main_run.
  destruct (changedPluginsOf sh (parseArgs argv)) as [|p names].
  - unfold exitStatus, printed, fst, snd. split; split; intros H.
    + discriminate H.
    + vm_compute in H. discriminate H.
    + left. reflexivity.
    + reflexivity.
  - unfold exitStatus, printed, fst, snd.
    rewrite !app_assoc. rewrite last_app_lines by apply closing_nonempty.
    rewrite last_closing.
    destruct (0 <? length _); split; split; intros H;
      try reflexivity; try discriminate H;
      try (right; reflexivity);
      try (vm_compute in H; discriminate H);
      destruct H as [H | H]; vm_compute in H; discriminate H.
Qed.

(** ** What a run reads of the shell *)

Lemma changedPluginsOf_ext (sh sh' : Shell) (options : Options) :
  raw_text sh (resolverCommand options) = raw_text sh' (resolverCommand options) ->
  changedPluginsOf sh options = changedPluginsOf sh' options.
Proof.
  intros H. unfold changedPluginsOf, getChangedPlugins, try_catch, bind, await, ret.
  fold (resolverCommand options). rewrite H. reflexivity.
Qed.

Lemma needsUpdateOf_ext (sh sh' : Shell) (options : Options) (p : jsstring) :
  raw_text sh (diffCommand p options) = raw_text sh' (diffCommand p options) ->
  (forall diff, raw_text sh (diffCommand p options) = Fulfilled diff ->
                echo_pipe_validate sh diff = echo_pipe_validate sh' diff) ->
  needsUpdateOf sh options p = needsUpdateOf sh' options p.
Proof.
  intros H H'. unfold needsUpdateOf, validatePlugin, try_catch, bind, await, ret.
  fold (diffCommand p options). rewrite <- H.
  destruct (raw_text sh (diffCommand p options)) as [diff | e]; [|reflexivity].
  rewrite <- (H' diff eq_refl). reflexivity.
Qed.

Lemma flat_map_ext_In (f g : jsstring -> list jsstring) (names : list jsstring) :
  (forall p, In p names -> f p = g p) -> flat_map f names = flat_map g names.
Proof.
  induction names as [|p names IH]; intros H; [reflexivity|].
  cbn [flat_map]. rewrite (H p) by (left; reflexivity).
  rewrite IH; [reflexivity|]. intros q Hq. apply H. right. exact Hq.
Qed.

(** X8. A run reads the shell only through the resolver command, the diff
    command of each plugin it resolved and the policy check on each such
    diff: two shells that answer these alike give the same printed lines and
    the same exit status. *)
Theorem run_reads_only_its_queries (sh sh' : Shell) (argv : list jsstring) :
  let options := parseArgs argv in
  raw_text sh (resolverCommand options) = raw_text sh' (resolverCommand options) ->
  (forall p, In p (changedPluginsOf sh options) ->
     raw_text sh (diffCommand p options) = raw_text sh' (diffCommand p options)) ->
  (forall p diff, In p (changedPluginsOf sh options) ->
     raw_text sh (diffCommand p options) = Fulfilled diff ->
     echo_pipe_validate sh diff = echo_pipe_validate sh' diff) ->
  run sh argv = run sh' argv.
Proof.
  intros options Hres Hdiff Hcheck.
  assert (Hn : changedPluginsOf sh' options = changedPluginsOf sh options)
    by (symmetry; apply changedPluginsOf_ext; exact Hres).
  assert (Hv : forall p, In p (changedPluginsOf sh options) ->
                 needsUpdateOf sh options p = needsUpdateOf sh' options p).
  { intros p Hp. apply needsUpdateOf_ext; [apply Hdiff; exact Hp|].
    intros diff Hd. apply (Hcheck p diff Hp Hd). }
  rewrite !main_run. fold options. rewrite Hn.
  destruct (changedPluginsOf sh options) as [|p names]; [reflexivity|].
  rewrite (filter_ext_in (needsUpdateOf sh options) (needsUpdateOf sh' options)
             (p :: names) Hv).
  rewrite (flat_map_ext_In (block sh options) (block sh' options) (p :: names)).
  - reflexivity.
  - intros q Hq. unfold block. rewrite (Hv q Hq). reflexivity.
Qed.

Lemma run_reads_only_its_queries_witness :
  run failingShell argv0
  = run (mkShell (raw_text failingShell) (echo_pipe_validate silentShell)) argv0.
Proof.
  apply (run_reads_only_its_queries failingShell
           (mkShell (raw_text failingShell) (echo_pipe_validate silentShell)) argv0).
  - reflexivity.
  - intros p Hp. reflexivity.
  - intros p diff Hp. vm_compute in Hp. destruct Hp.
Defined.

(** ** Plugin names on the command line *)

(** X9. The diff command does not quote the plugin name: outside staged
    mode, a plugin whose name ends in [ --staged] is queried, and so judged,
    as the plugin without that ending in staged mode. *)
Theorem plugin_name_is_not_quoted
    (sh : Shell) (p : jsstring) (options : Options) (out : list jsstring) :
  staged options = false ->
  diffCommand (p ++ lit " --staged") options
  = diffCommand p (mkOptions true (branch options)) /\
  validatePlugin sh (p ++ lit " --staged") options out
  = validatePlugin sh p (mkOptions true (branch options)) out.
Proof.
  intros Hs.
  assert (E : diffCommand (p ++ lit " --staged") options
              = diffCommand p (mkOptions true (branch options))).
  { destruct options as [s b]. cbn [staged] in Hs. subst s.
    unfold diffCommand, modeArgs. cbn [staged branch].
    destruct (negb (eqb b (lit "HEAD"))); cbn [app join];
      rewrite <- ?app_assoc; reflexivity. }
  split; [exact E|].
  unfold validatePlugin.
  fold (diffCommand (p ++ lit " --staged") options).
  fold (diffCommand p (mkOptions true (branch options))).
  rewrite E. reflexivity.
Qed.

Lemma plugin_name_is_not_quoted_witness :
  diffCommand (alpha ++ lit " --staged") defaultOptions
  = diffCommand alpha (mkOptions true (lit "HEAD")).
Proof.
  apply (plugin_name_is_not_quoted silentShell alpha defaultOptions []).
  reflexivity.
Defined.

(** ** Output without a name *)

Lemma trimStart_white (w : jsstring) :
  Forall (fun c => isWhiteSpace c = true) w -> trimStart w = [].
Proof.
  induction 1 as [|c w Hc _ IH]; [reflexivity|].
  cbn [trimStart]. rewrite Hc. exact IH.
Qed.

(** X10. When the resolver script prints nothing but white space (blank
    lines included), [getChangedPlugins] returns no plugin and the run ends
    with "No plugin changes detected" and status 0, without checking
    anything. *)
Theorem blank_output_is_no_change
    (sh : Shell) (argv : list jsstring) (text : jsstring) :
  Forall (fun c => isWhiteSpace c = true) text ->
  raw_text sh (resolverCommand (parseArgs argv)) = Fulfilled text ->
  changedPluginsOf sh (parseArgs argv) = [] /\
  run sh argv = (Exit 0%N, preamble ++ [Msg.noChanges]).
Proof.
  intros Hw Hraw.
  assert (E : changedPluginsOf sh (parseArgs argv) = []).
  { rewrite (changedPluginsOf_fulfilled sh (parseArgs argv) text Hraw).
    unfold trim. rewrite (trimStart_white text Hw). reflexivity. }
  split; [exact E|]. rewrite main_run, E. reflexivity.
Qed.

Lemma blank_output_is_no_change_witness :
  run (mkShell (fun _ => Fulfilled [LF; 32%N; LF]) (fun _ => Rejected (ShellError 1)))
      argv0
  = (Exit 0%N, preamble ++ [Msg.noChanges]).
Proof.
  apply (blank_output_is_no_change
           (mkShell (fun _ => Fulfilled [LF; 32%N; LF]) (fun _ => Rejected (ShellError 1)))
           argv0 [LF; 32%N; LF]).
  - repeat constructor.
  - reflexivity.
Defined.

(** ** The text of the two commands *)

(** X11. Both queries run the same script with the same mode flags: the
    resolver command is the script path followed by the flags, the diff
    command is the script path, the plugin name and the same flags.  The
    flags are [ --staged] in staged mode followed by [ --branch <ref>] for a
    ref other than [HEAD]; both are sent when both are set, and [HEAD] is
    never sent. *)
Theorem commands_share_mode_flags (pluginName : jsstring) (options : Options) :
  resolverCommand options
  = lit "./scripts/changed-plugins.ts" ++ modeSuffix options /\
  diffCommand pluginName options
  = lit "./scripts/changed-plugins.ts " ++ pluginName ++ modeSuffix options.
Proof.
  destruct options as [s b].
  unfold resolverCommand, diffCommand, modeArgs, modeSuffix. cbn [staged branch].
  destruct s, (eqb b (lit "HEAD")); cbn [negb app join];
    rewrite <- ?app_assoc, ?app_nil_r; split; reflexivity.
Qed.

(** ** From the answers of the policy check to the exit status *)




(** ** The resolver's names are distinct *)








Example resolve_two_paths_one_plugin :
  Resolver.resolve
    [lit "plugins/alpha/commands/a.md"; lit "README.md";
     lit "plugins/alpha/.claude-plugin/plugin.json"]
  = [alpha].
Proof. vm_compute. reflexivity. Qed.


